(** * ActionModel: the hybrid action head of the policy network

    A shallow embedding of [mlagents/trainers/torch/action_model.py].

    The module holds a list of distribution factories (one Gaussian factory
    when the action spec has continuous dimensions, one multi-categorical
    factory when it has discrete branches) and a split list describing how a
    flattened action tensor decomposes.  Its three entry points are
    [forward] (sample and score), [evaluate] (score supplied actions) and
    [get_action_out] (export).

    Tensors are a shape together with row-major storage, as torch keeps
    them.  Exceptions are values of [exn]; the global random generator that
    [sample()] draws from is threaded explicitly. *)

From Stdlib Require Import List Arith Bool Lia ZArith.
Import ListNotations.

Set Implicit Arguments.

(** ** Exceptions and the computation monad *)

(** The reasons for which the torch primitives used by the module raise
    [RuntimeError]. *)
Inductive torch_error : Type :=
| split_sizes_mismatch   (* torch.split: the sizes do not sum to the dimension *)
| cat_empty_list         (* torch.cat of an empty list of tensors *)
| cat_sizes_mismatch     (* torch.cat: sizes differ outside the concatenated dimension *)
| add_sizes_mismatch     (* elementwise addition of tensors of different shapes *)
| mask_sizes_mismatch    (* an action mask narrower or wider than the branches *)
| empty_reduction.       (* a sum over zero components *)

(** Python exceptions the module can surface.  [IndexError] is raised by a
    list index out of range and by torch for a dimension a tensor lacks. *)
Inductive exn : Type :=
| RuntimeError (e : torch_error)
| IndexError.

Definition result (A : Type) : Type := (exn + A)%type.

Definition Ok {A} (a : A) : result A := inr a.

Definition Raise {A} (e : exn) : result A := inl e.

Definition result_bind {A B} (r : result A) (k : A -> result B) : result B :=
  match r with
  | inl e => inl e
  | inr a => k a
  end.

(** A computation reads and updates the random generator (of state [rng])
    and either returns a value or raises. *)
Definition M (rng A : Type) : Type := rng -> result A * rng.

Definition ret {rng A} (a : A) : M rng A := fun g => (Ok a, g).

Definition bind {rng A B} (c : M rng A) (k : A -> M rng B) : M rng B :=
  fun g =>
    match c g with
    | (inl e, g') => (inl e, g')
    | (inr a, g') => k a g'
    end.

(** A step that does not touch the generator. *)
Definition lift {rng A} (r : result A) : M rng A := fun g => (r, g).

(** A step that draws from the generator and cannot raise. *)
Definition draw {rng A} (f : rng -> A * rng) : M rng A :=
  fun g => let (a, g') := f g in (Ok a, g').

Declare Scope comp_scope.
Delimit Scope comp_scope with comp.
Notation "x <- c ;; k" := (bind c (fun x => k))
  (at level 61, c at next level, right associativity) : comp_scope.
Notation "' p <- c ;; k" := (bind c (fun p => k))
  (at level 61, p pattern, c at next level, right associativity) : comp_scope.

(** Python's [l[i]]. *)
Definition getitem {A} (l : list A) (i : nat) : result A :=
  match nth_error l i with
  | Some a => Ok a
  | None => Raise IndexError
  end.

(** ** Tensors *)

(** Scalars (floats in the program) with their addition. *)
Class Scalar (R : Type) : Type := { scalar_add : R -> R -> R }.

Record Tensor (R : Type) : Type := mkTensor {
  shape : list nat;
  data : list R            (* row-major *)
}.

Definition numel (s : list nat) : nat := fold_right Nat.mul 1 s.

Definition shape_eqb (s1 s2 : list nat) : bool :=
  if list_eq_dec Nat.eq_dec s1 s2 then true else false.

Section Tensors.

Context {R : Type} {SR : Scalar R}.

(** The storage has as many scalars as the shape announces. *)
Definition well_formed (t : Tensor R) : Prop :=
  length (data t) = numel (shape t).

(** [t.shape[-1]] (on a tensor of rank at least one). *)
Definition last_dim (t : Tensor R) : nat := last (shape t) 0.

(** Number of rows when the tensor is read as a matrix over its last axis. *)
Definition outer_numel (t : Tensor R) : nat := numel (removelast (shape t)).

(** Row [r] of that matrix. *)
Definition row (t : Tensor R) (r : nat) : list R :=
  firstn (last_dim t) (skipn (r * last_dim t) (data t)).

(** [t.unsqueeze(-1)]: a trailing axis of size one over the same storage. *)
Definition unsqueeze_last (t : Tensor R) : Tensor R :=
  mkTensor (shape t ++ [1]) (data t).

(** [t[..., i]]: entry [i] of every row. *)
Definition select_last (t : Tensor R) (i : nat) : Tensor R :=
  mkTensor (removelast (shape t))
           (flat_map (fun r => firstn 1 (skipn i (row t r)))
                     (seq 0 (outer_numel t))).

(** Number of scalars under one index of axis 0. *)
Definition block_size (t : Tensor R) : nat := numel (tl (shape t)).

(** [t[b]], flattened. *)
Definition block (t : Tensor R) (b : nat) : list R :=
  firstn (block_size t) (skipn (b * block_size t) (data t)).

(** [torch.narrow(t, 1, off, len)] on a tensor of shape [B :: W :: rest]. *)
Definition narrow (t : Tensor R) (off len : nat) : Tensor R :=
  match shape t with
  | B :: _ :: rest =>
      mkTensor (B :: len :: rest)
               (flat_map (fun b => firstn (len * numel rest)
                                     (skipn (off * numel rest) (block t b)))
                         (seq 0 B))
  | _ => t
  end.

Fixpoint narrow_all (t : Tensor R) (off : nat) (sizes : list nat)
  : list (Tensor R) :=
  match sizes with
  | [] => []
  | len :: rest => narrow t off len :: narrow_all t (off + len) rest
  end.

(** [torch.split(t, sizes, dim=1)]: consecutive slices of axis 1 with the
    given sizes, which must sum to the size of that axis exactly. *)
Definition torch_split (t : Tensor R) (sizes : list nat)
  : result (list (Tensor R)) :=
  match shape t with
  | _ :: W :: _ =>
      if list_sum sizes =? W
      then Ok (narrow_all t 0 sizes)
      else Raise (RuntimeError split_sizes_mismatch)
  | _ => Raise IndexError
  end.

(** Size of axis 1. *)
Definition dim1 (t : Tensor R) : nat := nth 1 (shape t) 0.

(** The tensor has shape [B :: _ :: rest]. *)
Definition cat_compatible (B : nat) (rest : list nat) (t : Tensor R) : bool :=
  match shape t with
  | B' :: _ :: rest' => (B' =? B) && shape_eqb rest' rest
  | _ => false
  end.

(** [torch.cat(ts, dim=1)]: under every index of axis 0, the blocks of the
    arguments one after the other. *)
Definition torch_cat (ts : list (Tensor R)) : result (Tensor R) :=
  match ts with
  | [] => Raise (RuntimeError cat_empty_list)
  | t0 :: _ =>
      match shape t0 with
      | B :: _ :: rest =>
          if forallb (cat_compatible B rest) ts
          then Ok (mkTensor (B :: list_sum (map dim1 ts) :: rest)
                     (flat_map (fun b => flat_map (fun t => block t b) ts)
                               (seq 0 B)))
          else Raise (RuntimeError cat_sizes_mismatch)
      | _ => Raise IndexError
      end
  end.

(** Plain elementwise addition of two tensors of one shape. *)
Definition tensor_add (a b : Tensor R) : result (Tensor R) :=
  if shape_eqb (shape a) (shape b)
  then Ok (mkTensor (shape a)
             (map (fun p => scalar_add (fst p) (snd p))
                  (combine (data a) (data b))))
  else Raise (RuntimeError add_sizes_mismatch).

(** Sum of a list of tensors, left to right. *)
Definition tensor_sum (ts : list (Tensor R)) : result (Tensor R) :=
  match ts with
  | [] => Raise (RuntimeError empty_reduction)
  | t :: rest =>
      fold_left (fun acc x => result_bind acc (fun a => tensor_add a x))
                rest (Ok t)
  end.

End Tensors.

(** ** Action specification *)

(** Modelled from the spec: the ActionSpecDescriptor ([ActionSpec] of
    [mlagents_envs/base_env.py], which is not among the sources): a
    non-negative count of continuous dimensions and the ordered sequence of
    discrete branch sizes. *)
Record ActionSpec : Type := mkActionSpec {
  continuous_action_size : nat;
  discrete_action_branches : list nat
}.

(** Modelled from the spec: [discrete_size] is the length of
    [discrete_branches]. *)
Definition discrete_action_size (spec : ActionSpec) : nat :=
  length (discrete_action_branches spec).

(** ** Distributions *)

(** Modelled from the spec: the two distribution factories of section 4.2
    ([GaussianDistribution] and [MultiCategoricalDistribution] of
    [mlagents/trainers/torch/distributions.py], which is not among the
    sources), held by the arguments [__init__] constructs them with. *)
Inductive Distribution : Type :=
| GaussianDistribution
    (hidden_size num_outputs : nat) (conditional_sigma tanh_squash : bool)
| MultiCategoricalDistribution
    (hidden_size : nat) (act_sizes : list nat).

(** Modelled from the spec: a DistributionInstance, in its two variants.  A
    distribution instance is determined by the factory that built it and
    the arguments of the call: a Gaussian instance by the encoding, the
    categorical instance of a branch by the encoding and the mask, of which
    it respects the slice of its branch. *)
Inductive DistInstance (R : Type) : Type :=
| GaussianDistInstance
    (hidden_size num_outputs : nat) (conditional_sigma tanh_squash : bool)
    (inputs : Tensor R)
| CategoricalDistInstance
    (hidden_size : nat) (act_sizes : list nat) (branch : nat)
    (inputs masks : Tensor R).

(** Modelled from the spec: the capability set of a DistributionInstance
    (sample, log_prob, entropy, exported_form, structure).  The classes that
    implement them are in [distributions.py], which is not among the
    sources; the spec treats their numerics as a black box.  Only [sample]
    consults the random generator. *)
Class DistCapabilities (R rng : Type) : Type := {
  sample : DistInstance R -> rng -> Tensor R * rng;
  log_prob : DistInstance R -> Tensor R -> Tensor R;
  entropy : DistInstance R -> Tensor R;
  structure_action : DistInstance R -> Tensor R -> Tensor R;
  exported_model_output : DistInstance R -> Tensor R
}.

Section Model.

Context {R rng : Type} {SR : Scalar R} {DC : DistCapabilities R rng}.

(** Modelled from the spec: calling a factory, [distribution(inputs, masks)]
    (section 4.2).  The continuous factory ignores the mask and returns
    exactly one instance; the discrete factory returns one instance per
    branch, in branch order, and fails with a shape-mismatch error when the
    width of the mask is not the total number of discrete choices. *)
Definition call_distribution (distribution : Distribution)
  (inputs masks : Tensor R) : result (list (DistInstance R)) :=
  match distribution with
  | GaussianDistribution h n cs ts =>
      Ok [GaussianDistInstance h n cs ts inputs]
  | MultiCategoricalDistribution h act_sizes =>
      if dim1 masks =? list_sum act_sizes
      then Ok (map (fun branch =>
                      CategoricalDistInstance h act_sizes branch inputs masks)
                   (seq 0 (length act_sizes)))
      else Raise (RuntimeError mask_sizes_mismatch)
  end.

(** Modelled from the spec: [ModelUtils.get_probs_and_entropy] (of
    [mlagents/trainers/torch/utils.py], not among the sources), whose third
    result both callers discard.  Each action is scored against the
    instance at the same position, the two lists being walked together the
    way [forward] walks them with [zip]; the log-probabilities are summed
    across components by plain addition, and so are the entropies.  The
    spec leaves the sum over zero components undefined; it raises here. *)
Definition get_probs_and_entropy (action_list : list (Tensor R))
  (dists : list (DistInstance R)) : result (Tensor R * Tensor R) :=
  let pairs := combine action_list dists in
  let log_probs_list := map (fun p => log_prob (snd p) (fst p)) pairs in
  let entropies_list := map (fun p => entropy (snd p)) pairs in
  result_bind (tensor_sum log_probs_list) (fun log_probs =>
  result_bind (tensor_sum entropies_list) (fun entropies =>
  Ok (log_probs, entropies))).

(** ** The module *)

Record ActionModel : Type := mkActionModel {
  encoding_size : nat;
  continuous_act_size : nat;
  discrete_act_branches : list nat;
  discrete_act_size : nat;
  action_spec : ActionSpec;
  _split_list : list nat;
  _distributions : list Distribution
}.

(** [ActionModel.__init__] *)
Definition ActionModel_init (hidden_size : nat) (spec : ActionSpec)
  (conditional_sigma tanh_squash : bool) : ActionModel :=
  let encoding_size := hidden_size in
  let continuous_act_size := continuous_action_size spec in
  let discrete_act_branches := discrete_action_branches spec in
  let discrete_act_size := discrete_action_size spec in
  let split_list := [] in
  let distributions := [] in
  let '(distributions, split_list) :=
    if 0 <? continuous_act_size
    then (distributions ++
            [GaussianDistribution encoding_size continuous_act_size
               conditional_sigma tanh_squash],
          split_list ++ [continuous_act_size])
    else (distributions, split_list) in
  let '(distributions, split_list) :=
    if 0 <? discrete_act_size
    then (distributions ++
            [MultiCategoricalDistribution encoding_size discrete_act_branches],
          split_list ++ map (fun _ => 1) (seq 0 discrete_act_size))
    else (distributions, split_list) in
  mkActionModel encoding_size continuous_act_size discrete_act_branches
    discrete_act_size spec split_list distributions.

Local Open Scope comp_scope.

(** [ActionModel._sample_action]: one draw per instance, in list order. *)
Fixpoint _sample_action (dists : list (DistInstance R))
  : M rng (list (Tensor R)) :=
  match dists with
  | [] => ret []
  | action_dist :: rest =>
      action <- draw (sample action_dist) ;;
      actions <- _sample_action rest ;;
      ret (action :: actions)
  end.

(** [ActionModel._get_dists]: the instances of every factory, appended in
    the order of the factories; an exception of a factory ends the loop. *)
Definition _get_dists (self : ActionModel) (inputs masks : Tensor R)
  : result (list (DistInstance R)) :=
  fold_left
    (fun acc distribution =>
       result_bind acc (fun distribution_instances =>
       result_bind (call_distribution distribution inputs masks)
         (fun dist_instances => Ok (distribution_instances ++ dist_instances))))
    (_distributions self) (Ok []).

(** The columns [split_action[..., i]] of every slice, in order. *)
Definition unstack_slices (split_actions : list (Tensor R))
  : list (Tensor R) :=
  flat_map (fun split_action =>
              map (fun i => select_last split_action i)
                  (seq 0 (last_dim split_action)))
           split_actions.

(** The body of [evaluate] once the instances are obtained. *)
Definition evaluate_over (split_list : list nat) (dists : list (DistInstance R))
  (actions : Tensor R) : M rng (Tensor R * Tensor R) :=
  split_actions <- lift (torch_split actions split_list) ;;
  let action_lists := unstack_slices split_actions in
  ' (log_probs, entropies) <- lift (get_probs_and_entropy action_lists dists) ;;
  ret (log_probs, entropies).

(** [ActionModel.evaluate] *)
Definition evaluate (self : ActionModel) (inputs masks actions : Tensor R)
  : M rng (Tensor R * Tensor R) :=
  dists <- lift (_get_dists self inputs masks) ;;
  evaluate_over (_split_list self) dists actions.

(** The body of [get_action_out] once the instances are obtained. *)
Definition get_action_out_over (dists : list (DistInstance R))
  : M rng (Tensor R * Tensor R * Tensor R) :=
  dist0 <- lift (getitem dists 0) ;;
  dist1 <- lift (getitem dists 1) ;;
  combined <- lift (torch_cat (map exported_model_output dists)) ;;
  ret (exported_model_output dist0, exported_model_output dist1, combined).

(** [ActionModel.get_action_out] *)
Definition get_action_out (self : ActionModel) (inputs masks : Tensor R)
  : M rng (Tensor R * Tensor R * Tensor R) :=
  dists <- lift (_get_dists self inputs masks) ;;
  get_action_out_over dists.

(** The body of [forward] once the instances are obtained. *)
Definition forward_over (dists : list (DistInstance R))
  : M rng (Tensor R * Tensor R * Tensor R) :=
  action_lists <- _sample_action dists ;;
  let action_outs :=
    map (fun p => structure_action (snd p) (unsqueeze_last (fst p)))
        (combine action_lists dists) in
  ' (log_probs, entropies) <- lift (get_probs_and_entropy action_lists dists) ;;
  action <- lift (torch_cat action_outs) ;;
  ret (action, log_probs, entropies).

(** [ActionModel.forward] *)
Definition forward (self : ActionModel) (inputs masks : Tensor R)
  : M rng (Tensor R * Tensor R * Tensor R) :=
  dists <- lift (_get_dists self inputs masks) ;;
  forward_over dists.

End Model.

(** ** Specification-side definitions *)

(** The SplitPlan as section 4.1 words it: [[continuous_size]] (only if
    [continuous_size > 0]) followed by [discrete_size] entries of [1]. *)
Definition SplitPlan (C D : nat) : list nat :=
  (if 0 <? C then [C] else []) ++ repeat 1 D.

(** The mask is as wide as the branches have choices in total (section
    4.2); nothing is asked of it when the spec has no branch. *)
Definition mask_within_contract {R} (spec : ActionSpec) (masks : Tensor R)
  : bool :=
  (discrete_action_size spec =? 0)
  || (dim1 masks =? list_sum (discrete_action_branches spec)).

(** Batch size of a tensor: the size of axis 0. *)
Definition batch_dim {R} (t : Tensor R) : nat := hd 0 (shape t).

(** The encoding an instance was built from. *)
Definition dist_inputs {R} (d : DistInstance R) : Tensor R :=
  match d with
  | GaussianDistInstance _ _ _ _ inputs => inputs
  | CategoricalDistInstance _ _ _ inputs _ => inputs
  end.

(** Batch size of an instance. *)
Definition batch_of {R} (d : DistInstance R) : nat := batch_dim (dist_inputs d).

(** Columns an instance contributes to the flattened action: the native
    width of the Gaussian, one column for a categorical branch. *)
Definition action_width {R} (d : DistInstance R) : nat :=
  match d with
  | GaussianDistInstance _ num_outputs _ _ _ => num_outputs
  | CategoricalDistInstance _ _ _ _ _ => 1
  end.

Definition is_continuous {R} (d : DistInstance R) : bool :=
  match d with
  | GaussianDistInstance _ _ _ _ _ => true
  | CategoricalDistInstance _ _ _ _ _ => false
  end.

(** The branch a discrete instance stands for. *)
Definition branch_of {R} (d : DistInstance R) : option nat :=
  match d with
  | GaussianDistInstance _ _ _ _ _ => None
  | CategoricalDistInstance _ _ branch _ _ => Some branch
  end.

(** The continuous instance of a call, if the spec has continuous
    dimensions. *)
Definition continuous_instances {R} (hidden_size : nat) (spec : ActionSpec)
  (conditional_sigma tanh_squash : bool) (inputs : Tensor R)
  : list (DistInstance R) :=
  if 0 <? continuous_action_size spec
  then [GaussianDistInstance hidden_size (continuous_action_size spec)
          conditional_sigma tanh_squash inputs]
  else [].

(** The discrete instances of a call, one per branch in branch order. *)
Definition discrete_instances {R} (hidden_size : nat) (spec : ActionSpec)
  (inputs masks : Tensor R) : list (DistInstance R) :=
  map (fun branch =>
         CategoricalDistInstance hidden_size (discrete_action_branches spec)
           branch inputs masks)
      (seq 0 (discrete_action_size spec)).

(** Modelled from the spec: the shapes the spec gives the results of the
    capabilities (sections 4.3 and 6).  The structured form of a sample has
    the instance's columns (the continuous sample at native width, a
    discrete sample as a single trailing column).  The log-probability an
    instance gives its own sample, or a sub-action of its own columns (the
    block section 4.3 slices for it), is one scalar per batch element, and
    so is its entropy.  Nothing is promised for a value of another shape. *)
Record ShapeContract {R rng} (DC : DistCapabilities R rng) : Prop := {
  structure_action_shape : forall d g,
    shape (structure_action d (unsqueeze_last (fst (sample d g))))
    = [batch_of d; action_width d];
  log_prob_sample_shape : forall d g,
    shape (log_prob d (fst (sample d g))) = [batch_of d];
  log_prob_block_shape : forall d value,
    shape value = [batch_of d; action_width d] ->
    shape (log_prob d value) = [batch_of d];
  entropy_shape : forall d, shape (entropy d) = [batch_of d]
}.

(** Modelled from the spec: the exported form of an instance has the
    instance's columns, so that the combined export is [[B, W]]
    (section 6). *)
Definition ExportContract {R rng} (DC : DistCapabilities R rng) : Prop :=
  forall d, shape (exported_model_output d) = [batch_of d; action_width d].

(** The exported forms are tensors whose storage matches their shape. *)
Definition WellFormedExports {R rng} (DC : DistCapabilities R rng) : Prop :=
  forall d, well_formed (exported_model_output d).


(** A [B, w] tensor with as many scalars as its shape announces. *)
Definition matrix_of {R} (B : nat) (t : Tensor R) : Prop :=
  (exists w, shape t = [B; w]) /\ well_formed t.

(** Row [b] of each tensor of a list, one after the other. *)
Definition joined_row {R} (ts : list (Tensor R)) (b : nat) : list R :=
  flat_map (fun t => block t b) ts.

(** The concatenation of [B, w] tensors along axis 1, spelled out. *)
Definition joined {R} (B : nat) (ts : list (Tensor R)) : Tensor R :=
  mkTensor [B; list_sum (map dim1 ts)]
           (flat_map (joined_row ts) (seq 0 B)).

(** ** A concrete instantiation

    Integer scalars, a counter as random generator, and capabilities with
    the shapes of the contracts; used to run the module on examples. *)
Module Example.

#[export] Instance Z_scalar : Scalar Z := {| scalar_add := Z.add |}.

Definition constant (s : list nat) (x : Z) : Tensor Z :=
  mkTensor s (repeat x (numel s)).

#[export] Instance caps : DistCapabilities Z nat := {|
  sample := fun d g =>
    (constant [batch_of d; action_width d] (Z.of_nat g), S g);
  log_prob := fun d value =>
    constant [batch_of d] (fold_right Z.add 0%Z (data value));
  entropy := fun d => constant [batch_of d] 1%Z;
  structure_action := fun d action =>
    mkTensor [batch_of d; action_width d] (data action);
  exported_model_output := fun d =>
    constant [batch_of d; action_width d] 0%Z
|}.

(** An encoding of batch size 2 and width 4. *)
Definition inputs : Tensor Z := constant [2; 4] 1%Z.

(** Branches [[2, 3]] and no continuous dimension, with a mask of all ones
    over the five choices. *)
Definition discrete_only : ActionSpec := mkActionSpec 0 [2; 3].

Definition discrete_only_masks : Tensor Z := constant [2; 5] 1%Z.

(** Three continuous dimensions and no branch; the mask has no entry. *)
Definition continuous_only : ActionSpec := mkActionSpec 3 [].

Definition continuous_only_masks : Tensor Z := constant [2; 0] 1%Z.

(** Two continuous dimensions and branches [[3, 4]], with a mask of all
    ones over the seven choices. *)
Definition hybrid : ActionSpec := mkActionSpec 2 [3; 4].

Definition hybrid_masks : Tensor Z := constant [2; 7] 1%Z.


End Example.

Unset Implicit Arguments.

(** ** Construction: the split plan and the factories *)

Section Construction.

Context {R rng : Type} {SR : Scalar R} {DC : DistCapabilities R rng}.

Lemma map_const_seq (A : Type) (a : A) (start n : nat) :
  map (fun _ => a) (seq start n) = repeat a n.
Proof.
  revert start; induction n as [|n IH]; intros start; simpl.
  - reflexivity.
  - now rewrite IH.
Qed.

Lemma list_sum_repeat_1 (n : nat) : list_sum (repeat 1 n) = n.
Proof. induction n as [|n IH]; simpl; [reflexivity | now rewrite IH]. Qed.

Lemma SplitPlan_sum (C D : nat) : list_sum (SplitPlan C D) = C + D.
Proof.
  unfold SplitPlan. rewrite list_sum_app, list_sum_repeat_1.
  destruct (Nat.ltb_spec 0 C); simpl; lia.
Qed.

Lemma init_split_list (h : nat) (spec : ActionSpec) (cs ts : bool) :
  _split_list (ActionModel_init h spec cs ts)
  = SplitPlan (continuous_action_size spec) (discrete_action_size spec).
Proof.
  unfold ActionModel_init, SplitPlan.
  destruct (0 <? continuous_action_size spec);
    destruct (Nat.ltb_spec 0 (discrete_action_size spec)) as [Hd|Hd]; simpl;
    rewrite ?map_const_seq; try reflexivity.
  - assert (E : discrete_action_size spec = 0) by lia. now rewrite E.
  - assert (E : discrete_action_size spec = 0) by lia. now rewrite E.
Qed.

Lemma init_distributions (h : nat) (spec : ActionSpec) (cs ts : bool) :
  _distributions (ActionModel_init h spec cs ts)
  = (if 0 <? continuous_action_size spec
     then [GaussianDistribution h (continuous_action_size spec) cs ts]
     else [])
    ++ (if 0 <? discrete_action_size spec
        then [MultiCategoricalDistribution h (discrete_action_branches spec)]
        else []).
Proof.
  unfold ActionModel_init.
  destruct (0 <? continuous_action_size spec);
    destruct (0 <? discrete_action_size spec); reflexivity.
Qed.

(** The instances a module obtains: the continuous one, then the discrete
    ones, unless the discrete factory rejects the mask. *)
Lemma get_dists_init (h : nat) (spec : ActionSpec) (cs ts : bool)
  (inputs masks : Tensor R) :
  _get_dists (ActionModel_init h spec cs ts) inputs masks
  = if mask_within_contract spec masks
    then Ok (continuous_instances h spec cs ts inputs
             ++ discrete_instances h spec inputs masks)
    else Raise (RuntimeError mask_sizes_mismatch).
Proof.
  unfold _get_dists. rewrite init_distributions.
  unfold mask_within_contract, continuous_instances, discrete_instances.
  destruct (Nat.ltb_spec 0 (discrete_action_size spec)) as [Hd|Hd].
  - replace (discrete_action_size spec =? 0) with false
      by (symmetry; apply Nat.eqb_neq; lia).
    destruct (0 <? continuous_action_size spec); simpl;
      unfold discrete_action_size;
      destruct (dim1 masks =? list_sum (discrete_action_branches spec));
      reflexivity.
  - assert (E : discrete_action_size spec = 0) by lia. rewrite E.
    destruct (0 <? continuous_action_size spec); reflexivity.
Qed.

Lemma continuous_instances_length (h : nat) (spec : ActionSpec) (cs ts : bool)
  (inputs : Tensor R) :
  length (continuous_instances h spec cs ts inputs)
  = if 0 <? continuous_action_size spec then 1 else 0.
Proof.
  unfold continuous_instances.
  now destruct (0 <? continuous_action_size spec).
Qed.

Lemma discrete_instances_length (h : nat) (spec : ActionSpec)
  (inputs masks : Tensor R) :
  length (discrete_instances h spec inputs masks) = discrete_action_size spec.
Proof. unfold discrete_instances. now rewrite length_map, length_seq. Qed.

Lemma filter_continuous (h : nat) (spec : ActionSpec) (cs ts : bool)
  (inputs masks : Tensor R) :
  filter is_continuous
    (continuous_instances h spec cs ts inputs
     ++ discrete_instances h spec inputs masks)
  = continuous_instances h spec cs ts inputs.
Proof.
  rewrite filter_app.
  assert (Hd : filter is_continuous (discrete_instances h spec inputs masks) = []).
  { unfold discrete_instances.
    induction (seq 0 (discrete_action_size spec)) as [|k l IH]; simpl; auto. }
  rewrite Hd, app_nil_r.
  unfold continuous_instances.
  now destruct (0 <? continuous_action_size spec).
Qed.

Lemma branch_of_discrete (h : nat) (spec : ActionSpec)
  (inputs masks : Tensor R) :
  map branch_of (discrete_instances h spec inputs masks)
  = map Some (seq 0 (discrete_action_size spec)).
Proof.
  unfold discrete_instances. rewrite map_map. reflexivity.
Qed.

(** C5: for every continuous size [C] and every list of [D] branches,
    construction produces the split plan [[C]] followed by [D] ones when
    [C > 0] and [D] ones when [C = 0]; its entries sum to [C + D]; it is
    the function [SplitPlan] of [C] and [D] alone, whatever the encoding
    width, the flags and the branch sizes; and construction is a total
    function, with no failing path. *)
Theorem split_plan_of_construction (h : nat) (spec : ActionSpec) (cs ts : bool) :
  let C := continuous_action_size spec in
  let D := length (discrete_action_branches spec) in
  let plan := _split_list (ActionModel_init h spec cs ts) in
  plan = SplitPlan C D
  /\ (0 < C -> plan = C :: repeat 1 D)
  /\ (C = 0 -> plan = repeat 1 D)
  /\ list_sum plan = C + D.
Proof.
  cbv zeta. rewrite init_split_list. unfold discrete_action_size.
  split; [reflexivity|]. split; [|split].
  - intros HC. unfold SplitPlan.
    apply Nat.ltb_lt in HC. now rewrite HC.
  - intros HC. unfold SplitPlan. now rewrite HC.
  - apply SplitPlan_sum.
Qed.

(** C10: construction with no continuous dimension and no discrete branch
    goes through like any other (there is no guard on the degenerate spec)
    and yields a module with an empty list of factories and an empty split
    plan; every call then obtains zero distribution instances, and each
    entry point runs its body over the empty list. *)
Theorem degenerate_spec_constructs (h : nat) (cs ts : bool) :
  let m := ActionModel_init h (mkActionSpec 0 []) cs ts in
  _distributions m = []
  /\ _split_list m = []
  /\ forall inputs masks : Tensor R,
       _get_dists m inputs masks = Ok []
       /\ forward m inputs masks = forward_over []
       /\ (forall actions,
             evaluate m inputs masks actions = evaluate_over [] [] actions)
       /\ get_action_out m inputs masks = get_action_out_over [].
Proof. cbv zeta. repeat split. Qed.

(** C6: for every encoding and mask, the instances obtained are the
    continuous instance (exactly one if [continuous_size > 0], none
    otherwise) followed by exactly [discrete_size] discrete instances, the
    k-th standing for branch k; the call returns them whenever the mask has
    the width of the branches, and raises the factory's shape-mismatch
    error otherwise; and [forward], [evaluate] and [get_action_out] each
    run over exactly this list. *)
Theorem instances_in_fixed_order (h : nat) (spec : ActionSpec) (cs ts : bool)
  (inputs masks : Tensor R) :
  let m := ActionModel_init h spec cs ts in
  let cont := continuous_instances h spec cs ts inputs in
  let disc := discrete_instances h spec inputs masks in
  _get_dists m inputs masks
  = (if mask_within_contract spec masks
     then Ok (cont ++ disc)
     else Raise (RuntimeError mask_sizes_mismatch))
  /\ filter is_continuous (cont ++ disc) = cont
  /\ length cont = (if 0 <? continuous_action_size spec then 1 else 0)
  /\ length disc = discrete_action_size spec
  /\ map branch_of disc = map Some (seq 0 (discrete_action_size spec))
  /\ (mask_within_contract spec masks = true ->
      forward m inputs masks = forward_over (cont ++ disc)
      /\ (forall actions,
            evaluate m inputs masks actions
            = evaluate_over (_split_list m) (cont ++ disc) actions)
      /\ get_action_out m inputs masks = get_action_out_over (cont ++ disc)).
Proof.
  cbv zeta.
  split; [apply get_dists_init|].
  split; [apply filter_continuous|].
  split; [apply continuous_instances_length|].
  split; [apply discrete_instances_length|].
  split; [apply branch_of_discrete|].
  intros Hmask. unfold forward, evaluate, get_action_out.
  rewrite get_dists_init, Hmask. repeat split.
Qed.

End Construction.

(** ** Facts about the tensor primitives *)

Section TensorFacts.

Context {R : Type} {SR : Scalar R}.

(** A list made of [n] pieces of one length gives back its [k]-th piece. *)
Lemma piece_of_flat_map (f : nat -> list R) (len : nat) :
  forall n start k,
    (forall r, start <= r < start + n -> length (f r) = len) ->
    k < n ->
    firstn len (skipn (k * len) (flat_map f (seq start n))) = f (start + k).
Proof.
  induction n as [|n IH]; intros start k Hlen Hk; [lia|].
  simpl. destruct k as [|k].
  - simpl. rewrite Nat.add_0_r, firstn_app.
    rewrite (Hlen start) by lia.
    rewrite Nat.sub_diag, firstn_0, app_nil_r.
    apply firstn_all2. rewrite (Hlen start) by lia. apply Nat.le_refl.
  - rewrite skipn_app, (Hlen start) by lia.
    replace (S k * len - len) with (k * len) by (simpl; lia).
    rewrite skipn_all2 by (rewrite (Hlen start) by lia; simpl; lia).
    simpl. rewrite IH by (try lia; intros r Hr; apply Hlen; lia).
    f_equal. lia.
Qed.

Lemma flat_map_ext_seq (f g : nat -> list R) (n : nat) :
  (forall r, r < n -> f r = g r) ->
  flat_map f (seq 0 n) = flat_map g (seq 0 n).
Proof.
  intros H. rewrite !flat_map_concat_map. f_equal.
  apply map_ext_in. intros r Hr. apply in_seq in Hr. apply H. lia.
Qed.

Lemma row_length {t : Tensor R} {B W : nat} (r : nat) :
  shape t = [B; W] -> well_formed t -> r < B -> length (row t r) = W.
Proof.
  unfold well_formed, row, last_dim. intros Hs Hwf Hr.
  rewrite Hs in *. simpl in *.
  rewrite length_firstn, length_skipn, Hwf. nia.
Qed.

Lemma block_is_row {t : Tensor R} {B W : nat} (r : nat) :
  shape t = [B; W] -> block t r = row t r.
Proof.
  unfold block, block_size, row, last_dim. intros Hs. rewrite Hs. simpl.
  now rewrite Nat.mul_1_r.
Qed.

Lemma narrow_shape {t : Tensor R} {B W : nat} {rest : list nat} (off len : nat) :
  shape t = B :: W :: rest -> shape (narrow t off len) = B :: len :: rest.
Proof. unfold narrow. intros Hs. now rewrite Hs. Qed.

(** A row of a slice is the corresponding stretch of the row it was cut from. *)
Lemma narrow_row {t : Tensor R} {B W : nat} (off len r : nat) :
  shape t = [B; W] -> well_formed t -> off + len <= W -> r < B ->
  row (narrow t off len) r = firstn len (skipn off (row t r)).
Proof.
  intros Hs Hwf Hle Hr.
  unfold row at 1, last_dim. rewrite (narrow_shape off len Hs).
  unfold narrow. rewrite Hs. simpl last. simpl data. simpl numel.
  rewrite !Nat.mul_1_r.
  rewrite (piece_of_flat_map
             (fun b => firstn len (skipn off (block t b))) len B 0 r); trivial.
  - simpl. now rewrite (block_is_row r Hs).
  - intros b Hb. rewrite (block_is_row b Hs).
    rewrite length_firstn, length_skipn, (row_length b Hs Hwf) by lia. lia.
Qed.

(** Column [i] of a slice is column [off + i] of the tensor. *)
Lemma select_last_narrow {t : Tensor R} {B W : nat} (off len i : nat) :
  shape t = [B; W] -> well_formed t -> off + len <= W -> i < len ->
  select_last (narrow t off len) i = select_last t (off + i).
Proof.
  intros Hs Hwf Hle Hi. unfold select_last, outer_numel.
  rewrite (narrow_shape off len Hs), Hs. simpl removelast. f_equal.
  simpl numel. rewrite Nat.mul_1_r.
  apply flat_map_ext_seq. intros r Hr.
  rewrite (narrow_row off len r Hs Hwf Hle Hr).
  rewrite skipn_firstn_comm, firstn_firstn, skipn_skipn.
  replace (Nat.min 1 (len - i)) with 1 by lia.
  now rewrite (Nat.add_comm i off).
Qed.

Lemma columns_of_slice {t : Tensor R} {B W : nat} (off len : nat) :
  shape t = [B; W] -> well_formed t -> off + len <= W ->
  forall n z, z + n <= len ->
    map (fun i => select_last (narrow t off len) i) (seq z n)
    = map (select_last t) (seq (off + z) n).
Proof.
  intros Hs Hwf Hle. induction n as [|n IHn]; intros z Hz; [reflexivity|].
  simpl. rewrite (select_last_narrow off len z Hs Hwf) by lia.
  f_equal. rewrite IHn by lia. f_equal. f_equal. lia.
Qed.

(** Unstacking the slices of a [B, W] tensor gives its columns one by one,
    whatever the sizes of the slices. *)
Lemma unstack_narrow_all {t : Tensor R} {B W : nat} :
  shape t = [B; W] -> well_formed t ->
  forall sizes off,
    off + list_sum sizes <= W ->
    unstack_slices (narrow_all t off sizes)
    = map (select_last t) (seq off (list_sum sizes)).
Proof.
  intros Hs Hwf. induction sizes as [|len sizes IH]; intros off Hle.
  - reflexivity.
  - simpl in Hle. unfold unstack_slices in *. simpl narrow_all. simpl flat_map.
    rewrite IH by lia. simpl list_sum. rewrite seq_app, map_app. f_equal.
    unfold last_dim. rewrite (narrow_shape off len Hs). simpl last.
    rewrite (columns_of_slice off len Hs Hwf) by lia.
    now rewrite Nat.add_0_r.
Qed.

Lemma narrow_all_length (t : Tensor R) (sizes : list nat) :
  forall off, length (narrow_all t off sizes) = length sizes.
Proof. induction sizes as [|len sizes IH]; intros off; simpl; auto. Qed.

(** The number of columns unstacked from the slices of a [B, W] tensor. *)
Lemma unstack_narrow_all_length {t : Tensor R} {B W : nat} :
  shape t = [B; W] ->
  forall sizes off,
    length (unstack_slices (narrow_all t off sizes)) = list_sum sizes.
Proof.
  intros Hs. unfold unstack_slices.
  induction sizes as [|len sizes IH]; intros off; simpl; [reflexivity|].
  rewrite length_app, IH, length_map, length_seq.
  unfold last_dim. now rewrite (narrow_shape off len Hs).
Qed.

Lemma shape_eqb_refl (s : list nat) : shape_eqb s s = true.
Proof. unfold shape_eqb. destruct (list_eq_dec Nat.eq_dec s s); congruence. Qed.

Lemma tensor_add_shape (a b : Tensor R) (s : list nat) :
  shape a = s -> shape b = s ->
  exists c, tensor_add a b = Ok c /\ shape c = s.
Proof.
  intros Ha Hb. unfold tensor_add. rewrite Ha, Hb, shape_eqb_refl.
  eexists. split; [reflexivity|reflexivity].
Qed.

(** A sum of at least one tensor, all of one shape, has that shape. *)
Lemma tensor_sum_shape (ts : list (Tensor R)) (s : list nat) :
  ts <> [] -> Forall (fun t => shape t = s) ts ->
  exists t, tensor_sum ts = Ok t /\ shape t = s.
Proof.
  destruct ts as [|t0 rest]; [congruence|]. intros _ Hall.
  apply Forall_cons_iff in Hall. destruct Hall as [H0 Hrest]. simpl.
  revert t0 H0. induction Hrest as [|x rest Hx Hrest IH]; intros acc Hacc.
  - exists acc. now split.
  - simpl. destruct (tensor_add_shape acc x s Hacc Hx) as [c [Hc Hs]].
    rewrite Hc. apply IH. exact Hs.
Qed.

(** The concatenation of at least one [B, w] tensor is a [B, sum w]
    tensor. *)
Lemma torch_cat_shape (ts : list (Tensor R)) (B : nat) :
  ts <> [] -> Forall (fun t => exists w, shape t = [B; w]) ts ->
  exists t, torch_cat ts = Ok t /\ shape t = [B; list_sum (map dim1 ts)].
Proof.
  intros Hne Hall. destruct ts as [|t0 rest]; [congruence|].
  unfold torch_cat.
  assert (H0 : exists w, shape t0 = [B; w]) by (inversion Hall; assumption).
  destruct H0 as [w0 H0]. rewrite H0.
  assert (Hc : forallb (cat_compatible B []) (t0 :: rest) = true).
  { apply forallb_forall. intros t Ht.
    rewrite Forall_forall in Hall. destruct (Hall t Ht) as [w Hw].
    unfold cat_compatible. rewrite Hw, Nat.eqb_refl. reflexivity. }
  rewrite Hc. eexists. split; reflexivity.
Qed.

End TensorFacts.

(** ** Scoring supplied actions *)

Section Scoring.

Context {R rng : Type} {SR : Scalar R} {DC : DistCapabilities R rng}.

(** [evaluate] leaves the generator alone: its result is that of a
    computation without state. *)
Lemma evaluate_run (self : ActionModel) (inputs masks actions : Tensor R)
  (g : rng) :
  evaluate self inputs masks actions g
  = (result_bind (_get_dists self inputs masks) (fun dists =>
     result_bind (torch_split actions (_split_list self))
       (fun split_actions =>
          get_probs_and_entropy (unstack_slices split_actions) dists)),
     g).
Proof.
  unfold evaluate, evaluate_over, bind, lift, ret.
  destruct (_get_dists self inputs masks) as [e|dists]; simpl;
    [reflexivity|].
  destruct (torch_split actions (_split_list self)) as [e|split_actions];
    simpl; [reflexivity|].
  destruct (get_probs_and_entropy _ _) as [e|[log_probs entropies]];
    reflexivity.
Qed.

(** On a well-formed [B, W] action tensor of the right width, the actions
    handed to the scorer are the [W] columns of the tensor one by one: the
    split list has no influence on them. *)
Lemma evaluate_scores_single_columns (self : ActionModel)
  (inputs masks actions : Tensor R) (B W : nat) (g : rng) :
  shape actions = [B; W] -> well_formed actions ->
  list_sum (_split_list self) = W ->
  evaluate self inputs masks actions g
  = (result_bind (_get_dists self inputs masks)
       (get_probs_and_entropy (map (select_last actions) (seq 0 W))),
     g).
Proof.
  intros Hs Hwf Hsum. rewrite evaluate_run. unfold torch_split.
  rewrite Hs, Hsum, Nat.eqb_refl. simpl result_bind.
  rewrite (unstack_narrow_all Hs Hwf) by (simpl; lia).
  now rewrite Hsum.
Qed.

(** C1 (what the code does at the failing input): with two continuous
    dimensions and one branch, [evaluate] on a [2, 3] action tensor hands
    the scorer the three columns of the tensor one by one, not the
    continuous block and the column of the branch.  The Gaussian instance
    is scored on column 0 alone, as a vector, and the instance of branch 0
    on column 1, the second continuous coordinate; column 2, the action of
    the branch, reaches no instance.  The continuous block is not scored at
    its native width. *)
Theorem evaluate_unstacks_continuous_block (h : nat) (cs ts : bool)
  (inputs : Tensor R) (mask_entries : list R)
  (a00 a01 a02 a10 a11 a12 : R) (g : rng) :
  let m := ActionModel_init h (mkActionSpec 2 [3]) cs ts in
  let masks := mkTensor [2; 3] mask_entries in
  let gaussian := GaussianDistInstance h 2 cs ts inputs in
  let branch0 := CategoricalDistInstance h [3] 0 inputs masks in
  let actions := mkTensor [2; 3] [a00; a01; a02; a10; a11; a12] in
  _split_list m = [2; 1]
  /\ _get_dists m inputs masks = Ok [gaussian; branch0]
  /\ result_bind (torch_split actions (_split_list m))
       (fun split_actions => Ok (unstack_slices split_actions))
     = Ok [mkTensor [2] [a00; a10]; mkTensor [2] [a01; a11];
           mkTensor [2] [a02; a12]]
  /\ evaluate m inputs masks actions g
     = (result_bind
          (tensor_add (log_prob gaussian (mkTensor [2] [a00; a10]))
                      (log_prob branch0 (mkTensor [2] [a01; a11])))
          (fun log_probs =>
             result_bind (tensor_add (entropy gaussian) (entropy branch0))
               (fun entropies => Ok (log_probs, entropies))),
        g).
Proof.
  cbv zeta. split; [reflexivity|]. split; [reflexivity|].
  split; [reflexivity|].
  rewrite evaluate_run. reflexivity.
Qed.

(** C8: on an action tensor whose width (the size of axis 1) differs from
    the total of the split list, [evaluate] fails with a shape-mismatch
    error and returns no result: the error of [torch.split], or that of the
    discrete factory when the mask is off its width too. *)
Theorem evaluate_rejects_wrong_width (h : nat) (spec : ActionSpec)
  (cs ts : bool) (inputs masks actions : Tensor R) (B W : nat)
  (rest : list nat) (g : rng) :
  let m := ActionModel_init h spec cs ts in
  shape actions = B :: W :: rest ->
  W <> list_sum (_split_list m) ->
  evaluate m inputs masks actions g
  = (Raise (RuntimeError (if mask_within_contract spec masks
                          then split_sizes_mismatch
                          else mask_sizes_mismatch)), g).
Proof.
  cbv zeta. intros Hs HW. rewrite evaluate_run, get_dists_init.
  destruct (mask_within_contract spec masks); [|reflexivity].
  simpl result_bind. unfold torch_split. rewrite Hs.
  destruct (Nat.eqb_spec
              (list_sum (_split_list (ActionModel_init h spec cs ts))) W)
    as [E|E].
  - congruence.
  - reflexivity.
Qed.

(** C9: [evaluate] is deterministic.  Its result does not depend on the
    state of the random generator, it leaves that state as it found it, and
    a sampling call in between does not change what it returns. *)
Theorem evaluate_deterministic (self : ActionModel)
  (inputs masks actions : Tensor R) (g1 g2 : rng) :
  fst (evaluate self inputs masks actions g1)
  = fst (evaluate self inputs masks actions g2)
  /\ snd (evaluate self inputs masks actions g1) = g1
  /\ fst (evaluate self inputs masks actions
            (snd (forward self inputs masks g1)))
     = fst (evaluate self inputs masks actions g1).
Proof. rewrite !evaluate_run. repeat split. Qed.

End Scoring.

(** ** Export *)

Section ExportPath.

Context {R rng : Type} {SR : Scalar R} {DC : DistCapabilities R rng}.

Lemma action_width_total (h : nat) (spec : ActionSpec) (cs ts : bool)
  (inputs masks : Tensor R) :
  list_sum (map action_width
              (continuous_instances h spec cs ts inputs
               ++ discrete_instances h spec inputs masks))
  = continuous_action_size spec + discrete_action_size spec.
Proof.
  rewrite map_app, list_sum_app. f_equal.
  - unfold continuous_instances.
    destruct (Nat.ltb_spec 0 (continuous_action_size spec)); simpl; lia.
  - unfold discrete_instances. rewrite map_map. simpl.
    now rewrite map_const_seq, list_sum_repeat_1.
Qed.

Lemma batch_of_instances (h : nat) (spec : ActionSpec) (cs ts : bool)
  (inputs masks : Tensor R) :
  Forall (fun d => batch_of d = batch_dim inputs)
    (continuous_instances h spec cs ts inputs
     ++ discrete_instances h spec inputs masks).
Proof.
  apply Forall_app. split.
  - unfold continuous_instances.
    destruct (0 <? continuous_action_size spec); repeat constructor.
  - unfold discrete_instances. apply Forall_forall. intros d Hd.
    apply in_map_iff in Hd. destruct Hd as [k [<- _]]. reflexivity.
Qed.

Lemma instances_nonempty (h : nat) (spec : ActionSpec) (cs ts : bool)
  (inputs masks : Tensor R) :
  1 <= continuous_action_size spec + discrete_action_size spec ->
  continuous_instances h spec cs ts inputs
  ++ discrete_instances h spec inputs masks <> [].
Proof.
  intros Hpos Hnil. apply (f_equal (@length _)) in Hnil.
  rewrite length_app, continuous_instances_length,
    discrete_instances_length in Hnil. simpl in Hnil.
  destruct (Nat.ltb_spec 0 (continuous_action_size spec)); lia.
Qed.

(** The export of a module, in terms of the instances it runs over. *)
Lemma get_action_out_init (h : nat) (spec : ActionSpec) (cs ts : bool)
  (inputs masks : Tensor R) (g : rng) :
  mask_within_contract spec masks = true ->
  get_action_out (ActionModel_init h spec cs ts) inputs masks g
  = get_action_out_over
      (continuous_instances h spec cs ts inputs
       ++ discrete_instances h spec inputs masks) g.
Proof.
  intros Hmask. unfold get_action_out. now rewrite get_dists_init, Hmask.
Qed.

(** With two instances or more the indexing succeeds: the first two slots
    are the exported forms of the first two instances of the list. *)
Lemma get_action_out_over_two (d0 d1 : DistInstance R)
  (rest : list (DistInstance R)) (g : rng) :
  get_action_out_over (d0 :: d1 :: rest) g
  = (match torch_cat (map exported_model_output (d0 :: d1 :: rest)) with
     | inl e => inl e
     | inr combined =>
         inr (exported_model_output d0, exported_model_output d1, combined)
     end, g).
Proof.
  unfold get_action_out_over, bind, lift, ret, getitem.
  cbn [nth_error].
  destruct (torch_cat (map exported_model_output (d0 :: d1 :: rest)));
    reflexivity.
Qed.

(** C2 (what the code does at the failing input): with one continuous
    dimension and branches [[2, 3]], the second slot of the export is the
    exported form of the instance of branch 0 alone; branch 1 appears in
    the concatenation only. *)
Theorem export_second_slot_is_first_branch (h B : nat) (cs ts : bool)
  (inputs : Tensor R) (mask_entries : list R) (g : rng) :
  let m := ActionModel_init h (mkActionSpec 1 [2; 3]) cs ts in
  let masks := mkTensor [B; 5] mask_entries in
  let gaussian := GaussianDistInstance h 1 cs ts inputs in
  let branch k := CategoricalDistInstance h [2; 3] k inputs masks in
  _get_dists m inputs masks = Ok [gaussian; branch 0; branch 1]
  /\ get_action_out m inputs masks g
     = (match torch_cat [exported_model_output gaussian;
                         exported_model_output (branch 0);
                         exported_model_output (branch 1)] with
        | inl e => inl e
        | inr combined =>
            inr (exported_model_output gaussian,
                 exported_model_output (branch 0),
                 combined)
        end, g).
Proof.
  cbv zeta. split; [reflexivity|].
  rewrite get_action_out_init by reflexivity.
  change (continuous_instances h (mkActionSpec 1 [2; 3]) cs ts inputs
          ++ discrete_instances h (mkActionSpec 1 [2; 3]) inputs
               (mkTensor [B; 5] mask_entries))
    with [GaussianDistInstance h 1 cs ts inputs;
          CategoricalDistInstance h [2; 3] 0 inputs
            (mkTensor [B; 5] mask_entries);
          CategoricalDistInstance h [2; 3] 1 inputs
            (mkTensor [B; 5] mask_entries)].
  rewrite get_action_out_over_two. reflexivity.
Qed.

(** C3 (amended): when the module yields fewer than two distribution
    instances (a continuous family and no branch, or no continuous family
    and at most one branch), the indexing of [get_action_out] is out of
    range: the call raises [IndexError] and returns no tuple. *)
Theorem export_fails_below_two_instances (h : nat) (spec : ActionSpec)
  (cs ts : bool) (inputs masks : Tensor R) (g : rng) :
  mask_within_contract spec masks = true ->
  (if 0 <? continuous_action_size spec then 1 else 0)
  + discrete_action_size spec < 2 ->
  get_action_out (ActionModel_init h spec cs ts) inputs masks g
  = (Raise IndexError, g).
Proof.
  intros Hmask Hfew. rewrite get_action_out_init by exact Hmask.
  unfold continuous_instances, discrete_instances, discrete_action_size in *.
  destruct (0 <? continuous_action_size spec);
    destruct (discrete_action_branches spec) as [|b0 [|b1 brs]];
    simpl in Hfew; try lia; reflexivity.
Qed.

(** The combined export of a module, when the call returns, is a
    [B, C + D] tensor, provided every exported form has the columns of its
    instance. *)
Lemma combined_export_shape (h : nat) (spec : ActionSpec) (cs ts : bool)
  (inputs masks : Tensor R) (g g' : rng) (e0 e1 combined : Tensor R) :
  ExportContract DC ->
  get_action_out (ActionModel_init h spec cs ts) inputs masks g
  = (Ok (e0, e1, combined), g') ->
  shape combined
  = [batch_dim inputs;
     continuous_action_size spec + discrete_action_size spec].
Proof.
  intros Hexp Hrun.
  destruct (mask_within_contract spec masks) eqn:Hmask.
  2: { unfold get_action_out in Hrun.
       rewrite get_dists_init, Hmask in Hrun. discriminate. }
  rewrite (get_action_out_init _ _ _ _ _ _ _ Hmask) in Hrun.
  pose proof (batch_of_instances h spec cs ts inputs masks) as Hb.
  rewrite <- (action_width_total h spec cs ts inputs masks).
  revert Hb Hrun.
  generalize (continuous_instances h spec cs ts inputs
              ++ discrete_instances h spec inputs masks).
  intros dists Hb. rewrite Forall_forall in Hb.
  destruct dists as [|d0 [|d1 rest]]; try discriminate.
  rewrite get_action_out_over_two.
  destruct (torch_cat_shape (map exported_model_output (d0 :: d1 :: rest))
              (batch_dim inputs)) as [t [Ht Hs]].
  - discriminate.
  - apply Forall_forall. intros t Ht. apply in_map_iff in Ht.
    destruct Ht as [d [<- Hd]]. exists (action_width d).
    now rewrite Hexp, (Hb d Hd).
  - rewrite Ht. intros E. inversion E; subst. rewrite Hs. f_equal. f_equal.
    rewrite map_map. f_equal. apply map_ext. intros d. unfold dim1.
    now rewrite Hexp.
Qed.

(** C4 (what the code does at the boundary input): for no continuous
    dimension and branches [[2, 3]] the split plan is [[1, 1]], of total
    width 2, and the combined export, when every exported form has the
    columns of its instance, has width 2.  The first slot of the returned
    tuple, however, is not empty: it holds the exported form of the
    instance of branch 0, and the second slot that of branch 1 alone. *)
Theorem export_of_two_branches (h B : nat) (cs ts : bool)
  (inputs : Tensor R) (mask_entries : list R) (g : rng) :
  let m := ActionModel_init h (mkActionSpec 0 [2; 3]) cs ts in
  let masks := mkTensor [B; 5] mask_entries in
  let branch k := CategoricalDistInstance h [2; 3] k inputs masks in
  _split_list m = [1; 1]
  /\ list_sum (_split_list m) = 2
  /\ _get_dists m inputs masks = Ok [branch 0; branch 1]
  /\ get_action_out m inputs masks g
     = (match torch_cat [exported_model_output (branch 0);
                         exported_model_output (branch 1)] with
        | inl e => inl e
        | inr combined =>
            inr (exported_model_output (branch 0),
                 exported_model_output (branch 1),
                 combined)
        end, g)
  /\ (ExportContract DC ->
      forall e0 e1 combined g',
        get_action_out m inputs masks g = (Ok (e0, e1, combined), g') ->
        shape combined = [batch_dim inputs; 2]).
Proof.
  cbv zeta. split; [reflexivity|]. split; [reflexivity|].
  split; [reflexivity|]. split.
  - rewrite get_action_out_init by reflexivity.
    change (continuous_instances h (mkActionSpec 0 [2; 3]) cs ts inputs
            ++ discrete_instances h (mkActionSpec 0 [2; 3]) inputs
                 (mkTensor [B; 5] mask_entries))
      with [CategoricalDistInstance h [2; 3] 0 inputs
              (mkTensor [B; 5] mask_entries);
            CategoricalDistInstance h [2; 3] 1 inputs
              (mkTensor [B; 5] mask_entries)].
    rewrite get_action_out_over_two. reflexivity.
  - intros Hexp e0 e1 combined g' Hrun.
    apply (combined_export_shape _ _ _ _ _ _ _ _ _ _ _ Hexp Hrun).
Qed.

End ExportPath.

(** ** Sampling and the shapes of the results *)

Section Shapes.

Context {R rng : Type} {SR : Scalar R} {DC : DistCapabilities R rng}.

(** [_sample_action] never raises: it returns one draw per instance, in the
    order of the instances. *)
Lemma sample_action_run (dists : list (DistInstance R)) :
  forall g, exists actions g',
    _sample_action dists g = (Ok actions, g')
    /\ Forall2 (fun a d => exists g0, a = fst (sample d g0)) actions dists.
Proof.
  induction dists as [|d dists IH]; intros g.
  - exists [], g. split; [reflexivity | constructor].
  - simpl. unfold bind at 1, draw.
    destruct (sample d g) as [a g1] eqn:Ea.
    destruct (IH g1) as (actions & g2 & Hrun & Hall).
    exists (a :: actions), g2. split.
    + unfold bind, ret. now rewrite Hrun.
    + constructor; [|exact Hall]. exists g. now rewrite Ea.
Qed.

(** Scoring every instance on its own sample gives, for at least one
    instance, log-probabilities and entropies of shape [[B]]. *)
Lemma own_samples_scores_shape (contract : ShapeContract DC) (B : nat)
  (actions : list (Tensor R)) (dists : list (DistInstance R)) :
  Forall2 (fun a d => exists g0, a = fst (sample d g0)) actions dists ->
  Forall (fun d => batch_of d = B) dists ->
  dists <> [] ->
  exists log_probs entropies,
    get_probs_and_entropy actions dists = Ok (log_probs, entropies)
    /\ shape log_probs = [B] /\ shape entropies = [B].
Proof.
  intros Hall Hb Hne. unfold get_probs_and_entropy.
  assert (Hpairs : combine actions dists <> []).
  { destruct Hall; [congruence | discriminate]. }
  assert (Hshapes :
            Forall (fun t => shape t = [B])
              (map (fun p => log_prob (snd p) (fst p)) (combine actions dists))
            /\ Forall (fun t => shape t = [B])
                 (map (fun p => entropy (snd p)) (combine actions dists))).
  { clear Hne Hpairs. induction Hall as [|a d actions dists [g0 Ha] Hall IH].
    - split; constructor.
    - apply Forall_cons_iff in Hb. destruct Hb as [Hd Hb].
      destruct (IH Hb) as [Hlp Hen]. simpl. split; constructor; trivial.
      + now rewrite Ha, (log_prob_sample_shape contract), Hd.
      + now rewrite (entropy_shape contract), Hd. }
  destruct Hshapes as [Hlp Hen].
  destruct (tensor_sum_shape
              (map (fun p => log_prob (snd p) (fst p)) (combine actions dists))
              [B]) as [lp [Elp Hslp]]; trivial.
  { destruct (combine actions dists); [congruence | discriminate]. }
  destruct (tensor_sum_shape
              (map (fun p => entropy (snd p)) (combine actions dists)) [B])
    as [en [Een Hsen]]; trivial.
  { destruct (combine actions dists); [congruence | discriminate]. }
  exists lp, en. rewrite Elp, Een. repeat split; assumption.
Qed.

(** The structured samples are [B, w] tensors, with [w] the columns of the
    instance each was drawn from. *)
Lemma structured_samples (contract : ShapeContract DC) (B : nat)
  (actions : list (Tensor R)) (dists : list (DistInstance R)) :
  Forall2 (fun a d => exists g0, a = fst (sample d g0)) actions dists ->
  Forall (fun d => batch_of d = B) dists ->
  let action_outs :=
    map (fun p => structure_action (snd p) (unsqueeze_last (fst p)))
        (combine actions dists) in
  Forall (fun t => exists w, shape t = [B; w]) action_outs
  /\ map dim1 action_outs = map action_width dists
  /\ length actions = length dists.
Proof.
  cbv zeta. induction 1 as [|a d actions dists [g0 Ha] Hall IH]; intros Hb.
  - repeat split; constructor.
  - apply Forall_cons_iff in Hb. destruct Hb as [Hd Hb].
    destruct (IH Hb) as (Hshapes & Hwidths & Hlen). simpl.
    pose proof (structure_action_shape contract d g0) as Hs.
    rewrite <- Ha, Hd in Hs.
    split; [|split].
    + constructor; [now exists (action_width d) | exact Hshapes].
    + rewrite Hwidths. f_equal. unfold dim1. now rewrite Hs.
    + now rewrite Hlen.
Qed.

(** X10: for a spec with at least one action family, an encoding of batch
    size [B], a mask of the width of the branches and capabilities within
    the shape contract, [forward] returns, and its action tensor has width
    [continuous_size + discrete_size], whatever the sizes of the branches,
    with log-probabilities and entropies of shape [[B]]. *)
Theorem forward_shapes (h : nat) (spec : ActionSpec) (cs ts : bool)
  (B : nat) (inputs masks : Tensor R) (g : rng) :
  ShapeContract DC ->
  1 <= continuous_action_size spec + discrete_action_size spec ->
  shape inputs = [B; h] ->
  mask_within_contract spec masks = true ->
  exists action log_probs entropies g',
    forward (ActionModel_init h spec cs ts) inputs masks g
    = (Ok (action, log_probs, entropies), g')
    /\ shape action
       = [B; continuous_action_size spec + discrete_action_size spec]
    /\ shape log_probs = [B] /\ shape entropies = [B].
Proof.
  intros contract Hvalid Hin Hmask.
  pose proof (batch_of_instances h spec cs ts inputs masks) as Hb.
  pose proof (instances_nonempty h spec cs ts inputs masks Hvalid) as Hne.
  pose proof (action_width_total h spec cs ts inputs masks) as Hw.
  assert (HB : batch_dim inputs = B) by (unfold batch_dim; now rewrite Hin).
  rewrite HB in Hb.
  unfold forward. rewrite get_dists_init, Hmask.
  unfold bind at 1, lift at 1. unfold Ok at 1. cbv beta iota.
  revert Hb Hne Hw.
  generalize (continuous_instances h spec cs ts inputs
              ++ discrete_instances h spec inputs masks).
  intros dists Hb Hne Hw. unfold forward_over, bind at 1.
  destruct (sample_action_run dists g) as (actions & g' & Hrun & Hall).
  rewrite Hrun.
  destruct (structured_samples contract B actions dists Hall Hb)
    as (Hshapes & Hwidths & Hlen).
  destruct (own_samples_scores_shape contract B actions dists Hall Hb Hne)
    as (lp & en & Hgpe & Hslp & Hsen).
  destruct (torch_cat_shape
              (map (fun p => structure_action (snd p) (unsqueeze_last (fst p)))
                   (combine actions dists)) B)
    as (action & Hcat & Hsa); trivial.
  { destruct actions, dists; simpl in *; congruence. }
  exists action, lp, en, g'. unfold Ok at 1. cbv beta iota zeta.
  unfold bind, lift, ret.
  rewrite Hgpe, Hcat. repeat split; trivial.
  now rewrite Hsa, Hwidths, Hw.
Qed.

End Shapes.

(** ** Concatenating and splitting back *)

Section CatSplit.

Context {R : Type} {SR : Scalar R}.

(** Cutting a list of [B * w] scalars into [B] pieces of [w] and putting
    the pieces one after the other gives the list back. *)
Lemma pieces_reassemble (w : nat) :
  forall B (l : list R),
    length l = B * w ->
    flat_map (fun b => firstn w (skipn (b * w) l)) (seq 0 B) = l.
Proof.
  induction B as [|B IH]; intros l Hlen.
  - destruct l; [reflexivity | discriminate].
  - rewrite <- cons_seq, <- seq_shift. simpl flat_map.
    rewrite flat_map_concat_map, map_map, <- flat_map_concat_map.
    transitivity (firstn w l ++ skipn w l); [|apply firstn_skipn].
    f_equal.
    transitivity
      (flat_map (fun b => firstn w (skipn (b * w) (skipn w l))) (seq 0 B)).
    + apply flat_map_ext. intros b. f_equal.
      rewrite skipn_skipn. f_equal. simpl. lia.
    + apply IH. rewrite length_skipn, Hlen. simpl. lia.
Qed.

Lemma block_length {t : Tensor R} {B w : nat} (b : nat) :
  shape t = [B; w] -> well_formed t -> b < B -> length (block t b) = w.
Proof.
  intros Hs Hwf Hb. rewrite (block_is_row b Hs). now apply (row_length b Hs).
Qed.

Lemma blocks_reassemble {t : Tensor R} {B w : nat} :
  shape t = [B; w] -> well_formed t ->
  flat_map (block t) (seq 0 B) = data t.
Proof.
  intros Hs Hwf. unfold block, block_size. rewrite Hs. simpl tl. simpl numel.
  rewrite Nat.mul_1_r. apply pieces_reassemble.
  unfold well_formed in Hwf. rewrite Hs in Hwf. simpl in Hwf. lia.
Qed.

Lemma joined_row_length (B : nat) (ts : list (Tensor R)) (b : nat) :
  Forall (matrix_of B) ts -> b < B ->
  length (joined_row ts b) = list_sum (map dim1 ts).
Proof.
  intros Hall Hb. unfold joined_row.
  induction Hall as [|t ts [[w Hs] Hwf] Hall IH]; [reflexivity|].
  simpl. rewrite length_app, IH, (block_length b Hs Hwf Hb).
  unfold dim1. now rewrite Hs.
Qed.

Lemma torch_cat_joined (B : nat) (ts : list (Tensor R)) :
  ts <> [] -> Forall (matrix_of B) ts -> torch_cat ts = Ok (joined B ts).
Proof.
  intros Hne Hall. destruct ts as [|t0 rest]; [congruence|].
  unfold torch_cat.
  assert (H0 : matrix_of B t0) by (inversion Hall; assumption).
  destruct H0 as [[w0 H0] _]. rewrite H0.
  assert (Hc : forallb (cat_compatible B []) (t0 :: rest) = true).
  { apply forallb_forall. intros t Ht.
    rewrite Forall_forall in Hall. destruct (Hall t Ht) as [[w Hw] _].
    unfold cat_compatible. rewrite Hw, Nat.eqb_refl. reflexivity. }
  rewrite Hc. reflexivity.
Qed.

Lemma joined_block (B : nat) (ts : list (Tensor R)) (b : nat) :
  Forall (matrix_of B) ts -> b < B ->
  block (joined B ts) b = joined_row ts b.
Proof.
  intros Hall Hb. unfold block, block_size, joined. simpl tl. simpl numel.
  simpl data. rewrite Nat.mul_1_r.
  rewrite (piece_of_flat_map (joined_row ts) (list_sum (map dim1 ts)) B 0 b);
    trivial.
  intros r Hr. apply (joined_row_length B); trivial. lia.
Qed.

(** Narrowing the concatenation to the columns of one of its arguments
    gives that argument back. *)
Lemma narrow_joined (B : nat) (pre post : list (Tensor R)) (t : Tensor R) :
  Forall (matrix_of B) (pre ++ t :: post) ->
  narrow (joined B (pre ++ t :: post)) (list_sum (map dim1 pre)) (dim1 t) = t.
Proof.
  intros Hall.
  assert (Ht : matrix_of B t).
  { rewrite Forall_forall in Hall. apply Hall, in_elt. }
  assert (Hpre : Forall (matrix_of B) pre).
  { apply Forall_app in Hall. tauto. }
  destruct Ht as [[w Hs] Hwf].
  unfold narrow. simpl shape. cbv beta iota. simpl numel.
  rewrite !Nat.mul_1_r.
  destruct t as [tshape tdata]. simpl in Hs. subst tshape.
  unfold dim1 at 1 2. simpl nth. f_equal.
  transitivity (flat_map (block (mkTensor [B; w] tdata)) (seq 0 B));
    [|exact (blocks_reassemble (t := mkTensor [B; w] tdata) eq_refl Hwf)].
  apply flat_map_ext_seq. intros b Hb.
  rewrite (joined_block B _ b Hall Hb). unfold joined_row.
  rewrite flat_map_app. simpl flat_map.
  rewrite skipn_app.
  fold (joined_row pre b). rewrite (joined_row_length B pre b Hpre Hb).
  rewrite skipn_all2 by (rewrite (joined_row_length B pre b Hpre Hb); lia).
  rewrite Nat.sub_diag. simpl skipn. simpl app.
  rewrite firstn_app.
  rewrite (block_length (t := mkTensor [B; w] tdata) b eq_refl Hwf Hb).
  rewrite Nat.sub_diag, firstn_0, app_nil_r.
  apply firstn_all2.
  rewrite (block_length (t := mkTensor [B; w] tdata) b eq_refl Hwf Hb).
  apply Nat.le_refl.
Qed.

Lemma narrow_all_joined (B : nat) (ts : list (Tensor R)) :
  Forall (matrix_of B) ts ->
  forall post pre, ts = pre ++ post ->
    narrow_all (joined B ts) (list_sum (map dim1 pre)) (map dim1 post) = post.
Proof.
  intros Hall. induction post as [|t post IH]; intros pre Hts; [reflexivity|].
  simpl. f_equal.
  - subst ts. now apply narrow_joined.
  - replace (list_sum (map dim1 pre) + dim1 t)
      with (list_sum (map dim1 (pre ++ [t])))
      by (rewrite map_app, list_sum_app; simpl; lia).
    apply IH. now rewrite <- app_assoc.
Qed.

(** Splitting a concatenation by the widths of its arguments gives the
    arguments back. *)
Lemma split_of_cat (B : nat) (ts : list (Tensor R)) :
  ts <> [] -> Forall (matrix_of B) ts ->
  exists c, torch_cat ts = Ok c /\ torch_split c (map dim1 ts) = Ok ts.
Proof.
  intros Hne Hall. exists (joined B ts).
  split; [now apply torch_cat_joined|].
  unfold torch_split. simpl shape. cbv beta iota.
  rewrite Nat.eqb_refl. f_equal.
  apply (narrow_all_joined B ts Hall ts []). reflexivity.
Qed.

End CatSplit.

(** ** The split list and the instances *)

Section SplitListInvariant.

Context {R rng : Type} {SR : Scalar R} {DC : DistCapabilities R rng}.

(** Construction appends to the split list the columns of every instance
    the appended factory will yield. *)
Lemma split_list_widths (h : nat) (spec : ActionSpec) (cs ts : bool)
  (inputs masks : Tensor R) :
  _split_list (ActionModel_init h spec cs ts)
  = map action_width
      (continuous_instances h spec cs ts inputs
       ++ discrete_instances h spec inputs masks).
Proof.
  rewrite init_split_list, map_app. unfold SplitPlan. f_equal.
  - unfold continuous_instances.
    destruct (0 <? continuous_action_size spec); reflexivity.
  - unfold discrete_instances. rewrite map_map. simpl.
    now rewrite map_const_seq.
Qed.

Lemma get_dists_returns (h : nat) (spec : ActionSpec) (cs ts : bool)
  (inputs masks : Tensor R) (dists : list (DistInstance R)) :
  _get_dists (ActionModel_init h spec cs ts) inputs masks = Ok dists ->
  mask_within_contract spec masks = true
  /\ dists = continuous_instances h spec cs ts inputs
             ++ discrete_instances h spec inputs masks.
Proof.
  rewrite get_dists_init.
  destruct (mask_within_contract spec masks); [|discriminate].
  intros E. inversion E. now split.
Qed.

(** X1: whenever a module obtains its instances, its split list is the
    list of the columns of these instances, in their order: one entry per
    instance, the native width for the continuous one and 1 for each
    branch. *)
Theorem split_list_lists_instance_widths (h : nat) (spec : ActionSpec)
  (cs ts : bool) (inputs masks : Tensor R) (dists : list (DistInstance R)) :
  let m := ActionModel_init h spec cs ts in
  _get_dists m inputs masks = Ok dists ->
  _split_list m = map action_width dists
  /\ length (_split_list m) = length dists.
Proof.
  cbv zeta. intros Hd. apply get_dists_returns in Hd. destruct Hd as [_ ->].
  rewrite (split_list_widths h spec cs ts inputs masks).
  split; [reflexivity | apply length_map].
Qed.

End SplitListInvariant.

(** ** Sampling in order *)

Section SamplingOrder.

Context {R rng : Type} {SR : Scalar R} {DC : DistCapabilities R rng}.

(** X2: sampling from a list of instances put end to end is sampling from
    the first list, then from the second with the generator the first
    draws left, the samples being appended in that order. *)
Theorem sample_action_app (l1 l2 : list (DistInstance R)) (g : rng) :
  _sample_action (l1 ++ l2) g
  = bind (_sample_action l1)
      (fun actions1 =>
         bind (_sample_action l2)
           (fun actions2 => ret (actions1 ++ actions2))) g.
Proof.
  revert g. induction l1 as [|d l1 IH]; intros g.
  - simpl. unfold bind, ret.
    destruct (_sample_action l2 g) as [[e|actions2] g']; reflexivity.
  - simpl. unfold bind, draw, ret, Ok in *.
    destruct (sample d g) as [a g1]. rewrite IH.
    destruct (_sample_action l1 g1) as [[e|actions1] g2]; [reflexivity|].
    destruct (_sample_action l2 g2) as [[e|actions2] g3]; reflexivity.
Qed.

(** X3: there are as many actions as instances, and the k-th action
    returned by [_sample_action] is the sample of the k-th instance, drawn
    at the generator state the draws of the first k instances left. *)
Theorem sample_action_kth_draw (dists : list (DistInstance R)) (g : rng)
  (k : nat) (d : DistInstance R) :
  nth_error dists k = Some d ->
  exists actions g',
    _sample_action dists g = (Ok actions, g')
    /\ length actions = length dists
    /\ nth_error actions k
       = Some (fst (sample d (snd (_sample_action (firstn k dists) g)))).
Proof.
  revert g k. induction dists as [|d0 dists IH]; intros g k Hk.
  - destruct k; discriminate.
  - destruct k as [|k].
    + simpl in Hk. injection Hk as ->.
      simpl _sample_action. unfold bind at 1, draw.
      destruct (sample d g) as [a g1] eqn:Ea.
      destruct (sample_action_run dists g1) as (actions & g2 & Hrun & Hall).
      exists (a :: actions), g2. unfold bind, ret. rewrite Hrun.
      split; [reflexivity|]. split.
      * simpl. f_equal. apply (Forall2_length Hall).
      * simpl. now rewrite Ea.
    + simpl in Hk. simpl firstn. simpl _sample_action.
      unfold bind at 1 3, draw.
      destruct (sample d0 g) as [a g1].
      destruct (IH g1 k Hk) as (actions & g2 & Hrun & Hlen & Hnth).
      exists (a :: actions), g2. unfold bind, ret. rewrite Hrun.
      split; [reflexivity|]. split; [simpl; now rewrite Hlen|].
      simpl nth_error. rewrite Hnth. do 3 f_equal.
      unfold Ok. cbv beta iota.
      destruct (_sample_action (firstn k dists) g1) as [[e|prefix] g3];
        reflexivity.
Qed.

(** X9: the generator [forward] leaves behind is the one its draws leave
    behind, one draw per instance: scoring and concatenating do not touch
    it, also when they raise; and when the instances cannot be obtained,
    nothing is drawn. *)
Theorem forward_generator_after_draws (self : ActionModel)
  (inputs masks : Tensor R) (g : rng) :
  snd (forward self inputs masks g)
  = match _get_dists self inputs masks with
    | inl _ => g
    | inr dists => snd (_sample_action dists g)
    end.
Proof.
  unfold forward, bind at 1, lift at 1.
  destruct (_get_dists self inputs masks) as [e|dists]; [reflexivity|].
  unfold forward_over, bind at 1.
  destruct (_sample_action dists g) as [[e|actions] g']; [reflexivity|].
  cbv beta iota zeta. unfold bind at 1, lift at 1.
  destruct (get_probs_and_entropy actions dists) as [e|[lp en]];
    [reflexivity|].
  unfold bind, lift, ret.
  match goal with
  | |- context [torch_cat ?l] => destruct (torch_cat l)
  end; reflexivity.
Qed.

End SamplingOrder.

(** ** Which column reaches which instance *)

Section Pairing.

Context {R rng : Type} {SR : Scalar R} {DC : DistCapabilities R rng}.

(** The scorer reads as many actions as there are instances. *)
Lemma get_probs_and_entropy_firstn (action_list : list (Tensor R))
  (dists : list (DistInstance R)) :
  get_probs_and_entropy action_list dists
  = get_probs_and_entropy (firstn (length dists) action_list) dists.
Proof.
  unfold get_probs_and_entropy. now rewrite <- combine_firstn_r.
Qed.

Lemma firstn_columns (f : nat -> Tensor R) (n W : nat) :
  n <= W -> firstn n (map f (seq 0 W)) = map f (seq 0 n).
Proof.
  intros Hle. replace W with (n + (W - n)) by lia.
  rewrite seq_app, map_app, firstn_app, length_map, length_seq.
  rewrite Nat.sub_diag, firstn_0, app_nil_r.
  apply firstn_all2. now rewrite length_map, length_seq.
Qed.

Lemma instances_count (h : nat) (spec : ActionSpec) (cs ts : bool)
  (inputs masks : Tensor R) :
  length (continuous_instances h spec cs ts inputs
          ++ discrete_instances h spec inputs masks)
  = (if 0 <? continuous_action_size spec then 1 else 0)
    + discrete_action_size spec.
Proof.
  now rewrite length_app, continuous_instances_length,
    discrete_instances_length.
Qed.

Lemma evaluate_init_pairs (h : nat) (spec : ActionSpec) (cs ts : bool)
  (inputs masks actions : Tensor R) (B : nat) (g : rng) :
  shape actions
  = [B; continuous_action_size spec + discrete_action_size spec] ->
  well_formed actions ->
  mask_within_contract spec masks = true ->
  evaluate (ActionModel_init h spec cs ts) inputs masks actions g
  = (get_probs_and_entropy
       (map (select_last actions)
            (seq 0 ((if 0 <? continuous_action_size spec then 1 else 0)
                    + discrete_action_size spec)))
       (continuous_instances h spec cs ts inputs
        ++ discrete_instances h spec inputs masks), g).
Proof.
  intros Hs Hwf Hmask.
  rewrite (evaluate_scores_single_columns _ _ _ _ B _ g Hs Hwf)
    by (rewrite init_split_list; apply SplitPlan_sum).
  rewrite get_dists_init, Hmask. simpl result_bind.
  rewrite get_probs_and_entropy_firstn, instances_count, firstn_columns.
  - reflexivity.
  - destruct (Nat.ltb_spec 0 (continuous_action_size spec)); lia.
Qed.

(** X4: on a well-formed action tensor of the right width, [evaluate]
    scores instance k on column k of the tensor, a vector, for every k
    below the number of instances, and on nothing else.  That number is
    the width of the tensor exactly when there is at most one continuous
    dimension. *)
Theorem evaluate_scores_column_k_on_instance_k (h : nat) (spec : ActionSpec)
  (cs ts : bool) (inputs masks actions : Tensor R) (B : nat) (g : rng) :
  let C := continuous_action_size spec in
  let D := discrete_action_size spec in
  let n := (if 0 <? C then 1 else 0) + D in
  let dists := continuous_instances h spec cs ts inputs
               ++ discrete_instances h spec inputs masks in
  shape actions = [B; C + D] ->
  well_formed actions ->
  mask_within_contract spec masks = true ->
  evaluate (ActionModel_init h spec cs ts) inputs masks actions g
  = (get_probs_and_entropy (map (select_last actions) (seq 0 n)) dists, g)
  /\ length dists = n
  /\ (n = C + D <-> C <= 1).
Proof.
  cbv zeta. intros Hs Hwf Hmask. split; [|split].
  - now apply (evaluate_init_pairs h spec cs ts inputs masks actions B g).
  - apply instances_count.
  - destruct (Nat.ltb_spec 0 (continuous_action_size spec)); lia.
Qed.

(** X5: two well-formed action tensors of the right width that agree on
    their first columns, as many as there are instances, get the same
    result from [evaluate]: with two continuous dimensions or more, the
    last columns of the actions have no influence on the score. *)
Theorem evaluate_ignores_trailing_columns (h : nat) (spec : ActionSpec)
  (cs ts : bool) (inputs masks actions actions' : Tensor R) (B : nat)
  (g : rng) :
  let C := continuous_action_size spec in
  let D := discrete_action_size spec in
  let n := (if 0 <? C then 1 else 0) + D in
  shape actions = [B; C + D] -> well_formed actions ->
  shape actions' = [B; C + D] -> well_formed actions' ->
  map (select_last actions) (seq 0 n) = map (select_last actions') (seq 0 n) ->
  evaluate (ActionModel_init h spec cs ts) inputs masks actions g
  = evaluate (ActionModel_init h spec cs ts) inputs masks actions' g.
Proof.
  cbv zeta. intros Hs Hwf Hs' Hwf' Hagree.
  destruct (mask_within_contract spec masks) eqn:Hmask.
  - rewrite (evaluate_init_pairs h spec cs ts inputs masks actions B g),
      (evaluate_init_pairs h spec cs ts inputs masks actions' B g); trivial.
    now rewrite Hagree.
  - rewrite !evaluate_run, get_dists_init, Hmask. reflexivity.
Qed.

End Pairing.

(** ** The layout of the export and of the sampled action *)

Section Layout.

Context {R rng : Type} {SR : Scalar R} {DC : DistCapabilities R rng}.

(** X6: with a mask of the right width, exported forms of the instances'
    columns and two instances or more, [get_action_out] returns: the first
    two slots hold the exported forms of the first two instances (the
    continuous one and branch 0 when there is a continuous family,
    branches 0 and 1 otherwise) and the third a [B, C + D] tensor. *)
Theorem export_returns_with_two_instances (h : nat) (spec : ActionSpec)
  (cs ts : bool) (inputs masks : Tensor R) (g : rng) :
  ExportContract DC ->
  mask_within_contract spec masks = true ->
  2 <= (if 0 <? continuous_action_size spec then 1 else 0)
       + discrete_action_size spec ->
  exists d0 d1 rest combined,
    continuous_instances h spec cs ts inputs
    ++ discrete_instances h spec inputs masks = d0 :: d1 :: rest
    /\ get_action_out (ActionModel_init h spec cs ts) inputs masks g
       = (Ok (exported_model_output d0, exported_model_output d1, combined), g)
    /\ shape combined
       = [batch_dim inputs;
          continuous_action_size spec + discrete_action_size spec]
    /\ is_continuous d0 = (0 <? continuous_action_size spec)
    /\ branch_of d1
       = Some (if 0 <? continuous_action_size spec then 0 else 1).
Proof.
  intros Hexp Hmask Htwo.
  pose proof (batch_of_instances h spec cs ts inputs masks) as Hb.
  assert (Hrun : forall d0 d1 rest,
             continuous_instances h spec cs ts inputs
             ++ discrete_instances h spec inputs masks = d0 :: d1 :: rest ->
             exists combined,
               get_action_out (ActionModel_init h spec cs ts) inputs masks g
               = (Ok (exported_model_output d0, exported_model_output d1,
                      combined), g)
               /\ shape combined
                  = [batch_dim inputs;
                     continuous_action_size spec + discrete_action_size spec]).
  { intros d0 d1 rest Hd.
    rewrite get_action_out_init by exact Hmask. rewrite Hd in *.
    rewrite get_action_out_over_two.
    destruct (torch_cat_shape (map exported_model_output (d0 :: d1 :: rest))
                (batch_dim inputs)) as [c [Hc Hsc]].
    - discriminate.
    - rewrite Forall_forall in Hb. apply Forall_forall. intros t Ht.
      apply in_map_iff in Ht. destruct Ht as [d [<- Hin]].
      exists (action_width d). now rewrite Hexp, (Hb d Hin).
    - exists c. rewrite Hc. split; [reflexivity|].
      eapply combined_export_shape with (g := g) (g' := g); [exact Hexp|].
      rewrite get_action_out_init by exact Hmask. rewrite Hd.
      rewrite get_action_out_over_two, Hc. reflexivity. }
  unfold continuous_instances, discrete_instances, discrete_action_size in *.
  destruct (0 <? continuous_action_size spec);
    destruct (discrete_action_branches spec) as [|b0 [|b1 brs]];
    simpl in Htwo; try lia.
  - destruct (Hrun _ _ _ eq_refl) as [c [Hc Hsc]].
    do 4 eexists. split; [reflexivity|]. split; [exact Hc|].
    split; [exact Hsc|]. split; reflexivity.
  - destruct (Hrun _ _ _ eq_refl) as [c [Hc Hsc]].
    do 4 eexists. split; [reflexivity|]. split; [exact Hc|].
    split; [exact Hsc|]. split; reflexivity.
  - destruct (Hrun _ _ _ eq_refl) as [c [Hc Hsc]].
    do 4 eexists. split; [reflexivity|]. split; [exact Hc|].
    split; [exact Hsc|]. split; reflexivity.
Qed.

Lemma exports_are_matrices (h : nat) (spec : ActionSpec) (cs ts : bool)
  (inputs masks : Tensor R) :
  ExportContract DC -> WellFormedExports DC ->
  Forall (matrix_of (batch_dim inputs))
    (map exported_model_output
       (continuous_instances h spec cs ts inputs
        ++ discrete_instances h spec inputs masks)).
Proof.
  intros Hexp Hwf.
  pose proof (batch_of_instances h spec cs ts inputs masks) as Hb.
  rewrite Forall_forall in Hb. apply Forall_forall. intros t Ht.
  apply in_map_iff in Ht. destruct Ht as [d [<- Hin]]. split.
  - exists (action_width d). now rewrite Hexp, (Hb d Hin).
  - apply Hwf.
Qed.

(** X7: when [get_action_out] returns and the exported forms are
    well-formed tensors of their instances' columns, splitting the
    combined export by the module's split list gives back the exported
    form of every instance, in the order of the instances. *)
Theorem combined_export_splits_back (h : nat) (spec : ActionSpec)
  (cs ts : bool) (inputs masks : Tensor R) (g g' : rng)
  (e0 e1 combined : Tensor R) :
  ExportContract DC -> WellFormedExports DC ->
  get_action_out (ActionModel_init h spec cs ts) inputs masks g
  = (Ok (e0, e1, combined), g') ->
  torch_split combined (_split_list (ActionModel_init h spec cs ts))
  = Ok (map exported_model_output
          (continuous_instances h spec cs ts inputs
           ++ discrete_instances h spec inputs masks)).
Proof.
  intros Hexp Hwf Hrun.
  destruct (mask_within_contract spec masks) eqn:Hmask.
  2: { unfold get_action_out in Hrun.
       rewrite get_dists_init, Hmask in Hrun. discriminate. }
  rewrite (get_action_out_init _ _ _ _ _ _ _ Hmask) in Hrun.
  pose proof (exports_are_matrices h spec cs ts inputs masks Hexp Hwf) as Hm.
  rewrite (split_list_widths h spec cs ts inputs masks).
  revert Hrun Hm.
  generalize (continuous_instances h spec cs ts inputs
              ++ discrete_instances h spec inputs masks).
  intros dists Hrun Hm.
  destruct dists as [|d0 [|d1 rest]]; try discriminate.
  rewrite get_action_out_over_two in Hrun.
  destruct (split_of_cat (batch_dim inputs)
              (map exported_model_output (d0 :: d1 :: rest)))
    as [c [Hc Hsplit]]; [discriminate | exact Hm |].
  rewrite Hc in Hrun. inversion Hrun; subst.
  rewrite <- Hsplit. f_equal. rewrite map_map. apply map_ext.
  intros d. unfold dim1. now rewrite Hexp.
Qed.




End Layout.

(** ** The module on concrete inputs *)

Import Example.

(** C3 (counterexample to the claim as stated): the continuous family is
    absent, two branches are present, and the export does not fail: it
    returns a tuple whose first two slots hold the exported forms of the
    instances of branches 0 and 1. *)
Lemma export_without_continuous_family_returns :
  continuous_action_size discrete_only = 0
  /\ get_action_out (ActionModel_init 4 discrete_only false false)
       inputs discrete_only_masks 0
     = (Ok (constant [2; 1] 0%Z, constant [2; 1] 0%Z, constant [2; 2] 0%Z), 0).
Proof. split; reflexivity. Qed.

(** Three continuous dimensions and no branch: one instance, and the export
    raises [IndexError]. *)
Lemma export_fails_below_two_instances_witness :
  mask_within_contract continuous_only continuous_only_masks = true
  /\ (if 0 <? continuous_action_size continuous_only then 1 else 0)
     + discrete_action_size continuous_only < 2
  /\ get_action_out (ActionModel_init 4 continuous_only false false)
       inputs continuous_only_masks 0
     = (Raise IndexError, 0).
Proof.
  assert (Hmask : mask_within_contract continuous_only continuous_only_masks
                  = true) by reflexivity.
  assert (Hfew : (if 0 <? continuous_action_size continuous_only then 1 else 0)
                 + discrete_action_size continuous_only < 2)
    by (vm_compute; lia).
  split; [exact Hmask|]. split; [exact Hfew|].
  apply (export_fails_below_two_instances 4 continuous_only false false
           inputs continuous_only_masks 0 Hmask Hfew).
Defined.

(** A [2, 3] action tensor against a split list of total 4. *)
Lemma evaluate_rejects_wrong_width_witness :
  let actions := mkTensor [2; 3] [1; 2; 3; 4; 5; 6]%Z in
  let m := ActionModel_init 4 hybrid false false in
  shape actions = [2; 3]
  /\ 3 <> list_sum (_split_list m)
  /\ evaluate m inputs hybrid_masks actions 7
     = (Raise (RuntimeError split_sizes_mismatch), 7).
Proof.
  cbv zeta.
  assert (Hs : shape (mkTensor [2; 3] [1; 2; 3; 4; 5; 6]%Z) = [2; 3])
    by reflexivity.
  assert (Hw : 3 <> list_sum (_split_list (ActionModel_init 4 hybrid false false)))
    by (vm_compute; lia).
  split; [exact Hs|]. split; [exact Hw|].
  apply (evaluate_rejects_wrong_width 4 hybrid false false
           inputs hybrid_masks (mkTensor [2; 3] [1; 2; 3; 4; 5; 6]%Z)
           2 3 [] 7 Hs Hw).
Defined.


(** Two continuous dimensions and branches [[3, 4]], batch size 2: the
    capabilities of the example meet the shape contract, and sampling
    returns a [2, 4] action with [[2]]-shaped scores. *)
Lemma forward_shapes_witness :
  ShapeContract caps
  /\ 1 <= continuous_action_size hybrid + discrete_action_size hybrid
  /\ shape inputs = [2; 4]
  /\ mask_within_contract hybrid hybrid_masks = true
  /\ exists action log_probs entropies g',
       forward (ActionModel_init 4 hybrid false false) inputs hybrid_masks 0
       = (Ok (action, log_probs, entropies), g')
       /\ shape action
          = [2; continuous_action_size hybrid + discrete_action_size hybrid]
       /\ shape log_probs = [2] /\ shape entropies = [2].
Proof.
  assert (Hc : ShapeContract caps) by (constructor; intros; reflexivity).
  assert (Hv : 1 <= continuous_action_size hybrid + discrete_action_size hybrid)
    by (vm_compute; lia).
  assert (Hi : shape inputs = [2; 4]) by reflexivity.
  assert (Hm : mask_within_contract hybrid hybrid_masks = true) by reflexivity.
  split; [exact Hc|]. split; [exact Hv|]. split; [exact Hi|].
  split; [exact Hm|].
  exact (forward_shapes 4 hybrid false false 2 inputs hybrid_masks 0
           Hc Hv Hi Hm).
Defined.

(** Sampling does consult the generator: two generator states give two
    different actions. *)
Example forward_depends_on_generator :
  fst (forward (ActionModel_init 4 hybrid false false) inputs hybrid_masks 0)
  <> fst (forward (ActionModel_init 4 hybrid false false) inputs hybrid_masks 1).
Proof. vm_compute. discriminate. Qed.

(** The misalignment of [evaluate] on numbers: the log-probability of the
    example sums the entries it is given, and on the rows [[1, 2, 3, 4]] and
    [[5, 6, 7, 8]] the three instances receive columns 0, 1 and 2 (sum 24)
    rather than the block of columns 0-1 and then columns 2 and 3 (sum 36). *)
Example evaluate_misaligned_on_numbers :
  evaluate (ActionModel_init 4 hybrid false false) inputs hybrid_masks
    (mkTensor [2; 4] [1; 2; 3; 4; 5; 6; 7; 8]%Z) 7
  = (Ok (constant [2] 24%Z, constant [2] 3%Z), 7).
Proof. reflexivity. Qed.

(** *** Further runs of the module *)

(** The hybrid module obtains three instances, and its split list
    [[2, 1, 1]] lists their columns. *)
Lemma split_list_lists_instance_widths_witness :
  let dists := [GaussianDistInstance 4 2 false false inputs;
                CategoricalDistInstance 4 [3; 4] 0 inputs hybrid_masks;
                CategoricalDistInstance 4 [3; 4] 1 inputs hybrid_masks] in
  _get_dists (ActionModel_init 4 hybrid false false) inputs hybrid_masks
  = Ok dists
  /\ _split_list (ActionModel_init 4 hybrid false false)
     = map action_width dists
  /\ length (_split_list (ActionModel_init 4 hybrid false false))
     = length dists.
Proof.
  cbv zeta.
  assert (Hd : _get_dists (ActionModel_init 4 hybrid false false) inputs
                 hybrid_masks
               = Ok [GaussianDistInstance 4 2 false false inputs;
                     CategoricalDistInstance 4 [3; 4] 0 inputs hybrid_masks;
                     CategoricalDistInstance 4 [3; 4] 1 inputs hybrid_masks])
    by reflexivity.
  split; [exact Hd|].
  exact (split_list_lists_instance_widths 4 hybrid false false inputs
           hybrid_masks _ Hd).
Defined.

(** The hybrid module on the rows [[1, 2, 3, 4]] and [[5, 6, 7, 8]]: three
    instances, three columns scored, and 3 is not the width 4. *)
Lemma evaluate_scores_column_k_on_instance_k_witness :
  let actions := mkTensor [2; 4] [1; 2; 3; 4; 5; 6; 7; 8]%Z in
  let dists := continuous_instances 4 hybrid false false inputs
               ++ discrete_instances 4 hybrid inputs hybrid_masks in
  shape actions = [2; 2 + 2]
  /\ well_formed actions
  /\ mask_within_contract hybrid hybrid_masks = true
  /\ evaluate (ActionModel_init 4 hybrid false false) inputs hybrid_masks
       actions 7
     = (get_probs_and_entropy (map (select_last actions) (seq 0 3)) dists, 7)
  /\ length dists = 3
  /\ (3 = 2 + 2 <-> 2 <= 1).
Proof.
  cbv zeta.
  assert (Hs : shape (mkTensor [2; 4] [1; 2; 3; 4; 5; 6; 7; 8]%Z) = [2; 2 + 2])
    by reflexivity.
  assert (Hwf : well_formed (mkTensor [2; 4] [1; 2; 3; 4; 5; 6; 7; 8]%Z))
    by reflexivity.
  assert (Hm : mask_within_contract hybrid hybrid_masks = true) by reflexivity.
  split; [exact Hs|]. split; [exact Hwf|]. split; [exact Hm|].
  exact (evaluate_scores_column_k_on_instance_k 4 hybrid false false inputs
           hybrid_masks _ 2 7 Hs Hwf Hm).
Defined.

(** Two action tensors that differ in their last column only, the action
    of the second branch, are scored alike by the hybrid module. *)
Lemma evaluate_ignores_trailing_columns_witness :
  let actions := mkTensor [2; 4] [1; 2; 3; 4; 5; 6; 7; 8]%Z in
  let actions' := mkTensor [2; 4] [1; 2; 3; 40; 5; 6; 7; 80]%Z in
  shape actions = [2; 2 + 2] /\ well_formed actions
  /\ shape actions' = [2; 2 + 2] /\ well_formed actions'
  /\ map (select_last actions) (seq 0 3) = map (select_last actions') (seq 0 3)
  /\ evaluate (ActionModel_init 4 hybrid false false) inputs hybrid_masks
       actions 7
     = evaluate (ActionModel_init 4 hybrid false false) inputs hybrid_masks
         actions' 7.
Proof.
  cbv zeta.
  assert (Hs : shape (mkTensor [2; 4] [1; 2; 3; 4; 5; 6; 7; 8]%Z) = [2; 2 + 2])
    by reflexivity.
  assert (Hwf : well_formed (mkTensor [2; 4] [1; 2; 3; 4; 5; 6; 7; 8]%Z))
    by reflexivity.
  assert (Hs' : shape (mkTensor [2; 4] [1; 2; 3; 40; 5; 6; 7; 80]%Z)
                = [2; 2 + 2]) by reflexivity.
  assert (Hwf' : well_formed (mkTensor [2; 4] [1; 2; 3; 40; 5; 6; 7; 80]%Z))
    by reflexivity.
  assert (Ha : map (select_last (mkTensor [2; 4] [1; 2; 3; 4; 5; 6; 7; 8]%Z))
                 (seq 0 3)
               = map (select_last
                        (mkTensor [2; 4] [1; 2; 3; 40; 5; 6; 7; 80]%Z))
                   (seq 0 3)) by reflexivity.
  split; [exact Hs|]. split; [exact Hwf|]. split; [exact Hs'|].
  split; [exact Hwf'|]. split; [exact Ha|].
  exact (evaluate_ignores_trailing_columns 4 hybrid false false inputs
           hybrid_masks _ _ 2 7 Hs Hwf Hs' Hwf' Ha).
Defined.

(** The capabilities of the example export tensors of their instances'
    columns, and the hybrid module has three instances. *)
Lemma export_returns_with_two_instances_witness :
  ExportContract caps
  /\ mask_within_contract hybrid hybrid_masks = true
  /\ 2 <= (if 0 <? continuous_action_size hybrid then 1 else 0)
          + discrete_action_size hybrid
  /\ exists d0 d1 rest combined,
       continuous_instances 4 hybrid false false inputs
       ++ discrete_instances 4 hybrid inputs hybrid_masks = d0 :: d1 :: rest
       /\ get_action_out (ActionModel_init 4 hybrid false false) inputs
            hybrid_masks 0
          = (Ok (exported_model_output d0, exported_model_output d1,
                 combined), 0)
       /\ shape combined
          = [batch_dim inputs;
             continuous_action_size hybrid + discrete_action_size hybrid]
       /\ is_continuous d0 = (0 <? continuous_action_size hybrid)
       /\ branch_of d1
          = Some (if 0 <? continuous_action_size hybrid then 0 else 1).
Proof.
  assert (He : ExportContract caps) by (intros d; reflexivity).
  assert (Hm : mask_within_contract hybrid hybrid_masks = true) by reflexivity.
  assert (Ht : 2 <= (if 0 <? continuous_action_size hybrid then 1 else 0)
                    + discrete_action_size hybrid) by (vm_compute; lia).
  split; [exact He|]. split; [exact Hm|]. split; [exact Ht|].
  exact (export_returns_with_two_instances 4 hybrid false false inputs
           hybrid_masks 0 He Hm Ht).
Defined.

(** The export of the module with branches [[2, 3]] splits back into the
    exported forms of its two instances. *)
Lemma combined_export_splits_back_witness :
  ExportContract caps /\ WellFormedExports caps
  /\ get_action_out (ActionModel_init 4 discrete_only false false) inputs
       discrete_only_masks 0
     = (Ok (constant [2; 1] 0%Z, constant [2; 1] 0%Z, constant [2; 2] 0%Z), 0)
  /\ torch_split (constant [2; 2] 0%Z)
       (_split_list (ActionModel_init 4 discrete_only false false))
     = Ok (map exported_model_output
             (continuous_instances 4 discrete_only false false inputs
              ++ discrete_instances 4 discrete_only inputs
                   discrete_only_masks)).
Proof.
  assert (He : ExportContract caps) by (intros d; reflexivity).
  assert (Hw : WellFormedExports caps)
    by (intros d; apply repeat_length).
  assert (Hr : get_action_out (ActionModel_init 4 discrete_only false false)
                 inputs discrete_only_masks 0
               = (Ok (constant [2; 1] 0%Z, constant [2; 1] 0%Z,
                      constant [2; 2] 0%Z), 0)) by reflexivity.
  split; [exact He|]. split; [exact Hw|]. split; [exact Hr|].
  exact (combined_export_splits_back 4 discrete_only false false inputs
           discrete_only_masks 0 0 _ _ _ He Hw Hr).
Defined.


(** The second draw of the hybrid module is the sample of branch 0, drawn
    at the generator state the first draw left. *)
Lemma sample_action_kth_draw_witness :
  let dists := [GaussianDistInstance 4 2 false false inputs;
                CategoricalDistInstance 4 [3; 4] 0 inputs hybrid_masks;
                CategoricalDistInstance 4 [3; 4] 1 inputs hybrid_masks] in
  let d := CategoricalDistInstance 4 [3; 4] 0 inputs hybrid_masks in
  nth_error dists 1 = Some d
  /\ exists actions g',
       _sample_action dists 0 = (Ok actions, g')
       /\ length actions = length dists
       /\ nth_error actions 1
          = Some (fst (sample d (snd (_sample_action (firstn 1 dists) 0)))).
Proof.
  cbv zeta.
  assert (Hk : nth_error
                 [GaussianDistInstance 4 2 false false inputs;
                  CategoricalDistInstance 4 [3; 4] 0 inputs hybrid_masks;
                  CategoricalDistInstance 4 [3; 4] 1 inputs hybrid_masks] 1
               = Some (CategoricalDistInstance 4 [3; 4] 0 inputs hybrid_masks))
    by reflexivity.
  split; [exact Hk|].
  exact (sample_action_kth_draw _ 0 1 _ Hk).
Defined.
